(** * Verification of pkg/cache/cache.go (controller-runtime object cache)

    The development embeds the configuration defaulting ([Default]) and the
    cache constructor ([New]) of [pkg/cache/cache.go], and a model of the
    informer registry behind the [Informers] interface. *)

From Stdlib Require Import ZArith Lia.
From stdpp Require Import base option list gmap strings.

Local Open Scope Z_scope.
Local Open Scope string_scope.
Local Open Scope list_scope.

(** ** Go prelude *)

(** [time.Duration] is an [int64] count of nanoseconds.  The constants are
    those of Go's [time] package; [10 * time.Hour] is a constant expression,
    evaluated exactly by the compiler. *)
Module time.
Definition Duration : Type := Z.
Definition Nanosecond : Duration := 1.
Definition Microsecond : Duration := 1000 * Nanosecond.
Definition Millisecond : Duration := 1000 * Microsecond.
Definition Second : Duration := 1000 * Millisecond.
Definition Minute : Duration := 60 * Second.
Definition Hour : Duration := 60 * Minute.
Definition int64_min : Z := - 2 ^ 63.
Definition int64_max : Z := 2 ^ 63 - 1.
Definition in_int64 (d : Duration) : Prop := int64_min <= d <= int64_max.
End time.

(** The [error] interface: the only observation the source era offers on an
    error value is its message, [Error()]. *)
Record error : Type := errorString { Error : string }.

(** [fmt.Errorf(format)] called without arguments on a format that holds no
    verb: the message is the format itself. *)
Definition fmt_Errorf (format : string) : error := errorString format.

(** [strings.HasPrefix] and [strings.Contains] on messages, used to say that
    one error message quotes another. *)
Fixpoint HasPrefix (s prefix : string) : bool :=
  match prefix, s with
  | EmptyString, _ => true
  | String c p, String d t => if Ascii.eqb c d then HasPrefix t p else false
  | String _ _, EmptyString => false
  end.

Fixpoint Contains (s substr : string) : bool :=
  HasPrefix s substr ||
  match s with
  | EmptyString => false
  | String _ t => Contains t substr
  end.

(** An error carries its cause when its message quotes the message of the
    cause, as [fmt.Errorf("...: %v", cause)] makes it do. *)
Definition carries_cause (err cause : error) : bool :=
  Contains (Error err) (Error cause).

(** One call of [Error(err, msg)] on a named logger.  [log] is
    [logf.KBLog.WithName("object-cache")]; the names are listed outermost
    first. *)
Record LogRecord : Type := mkLogRecord {
  logger_names : list string;
  log_err : error;
  log_msg : string
}.

(** ** The world [Default] and [New] run in

    [durations] is the store of [time.Duration] variables that a
    [*time.Duration] can point to: a pointer is an index into it, and taking
    the address of a new variable ([&r]) appends a cell.  [logged] collects
    the calls made on the package logger. *)
Definition loc : Type := nat.

Record World : Type := mkWorld {
  durations : list time.Duration;
  logged : list LogRecord
}.

(** State passing; [None] is a run-time panic (nil pointer dereference). *)
Definition M (A : Type) : Type := World → option (A * World).

Global Instance M_ret : MRet M := λ A x w, Some (x, w).
Global Instance M_bind : MBind M := λ A B f m w,
  match m w with
  | Some (x, w') => f x w'
  | None => None
  end.

(** [&r] for a fresh variable [r] holding [d]. *)
Definition new_Duration (d : time.Duration) : M loc := λ w,
  Some (length (durations w),
        {| durations := durations w ++ [d]; logged := logged w |}).

(** [*p] for [p : *time.Duration]. *)
Definition deref_Duration (p : option loc) : M time.Duration := λ w,
  match p with
  | None => None
  | Some l => d ← durations w !! l; Some (d, w)
  end.

(** [log.WithName(name).Error(err, msg)] *)
Definition log_WithName_Error (name : string) (err : error) (msg : string) : M unit := λ w,
  Some (tt, {| durations := durations w;
               logged := logged w ++ [mkLogRecord ["object-cache"; name] err msg] |}).

(** The world after one [Error] call on the setup logger. *)
Definition with_setup_error (cause : error) (w : World) : World :=
  mkWorld (durations w)
          (logged w ++ [mkLogRecord ["object-cache"; "setup"] cause
                                    "Failed to get API Group-Resources"]).

(** A [*time.Duration] is nil or points to a live variable. *)
Definition valid_ptr (w : World) (p : option loc) : Prop :=
  ∀ l, p = Some l → is_Some (durations w !! l).

(** ** pkg/cache/cache.go *)

Section Cache.
(** Collaborators that live outside [cache.go]: the connection
    configuration [rest.Config], references to [runtime.Scheme],
    [meta.RESTMapper] values, the package variable [scheme.Scheme], the
    discovery call [apiutil.NewDiscoveryRESTMapper] and the registry
    constructor [internal.NewInformersMap]. *)
Variables rest_Config Scheme_ptr RESTMapper InformersMap : Type.
Variable scheme_Scheme : Scheme_ptr.
Variable NewDiscoveryRESTMapper : rest_Config → option RESTMapper * option error.
Variable NewInformersMap :
  rest_Config → option Scheme_ptr → option RESTMapper → time.Duration → InformersMap.

(** Options are the optional arguments for creating a new InformersMap
    object.  [None] is Go's [nil]. *)
Record Options : Type := mkOptions {
  Scheme : option Scheme_ptr;
  Mapper : option RESTMapper;
  Resync : option loc
}.

(** [informerCache] wraps the registry; a [Cache] interface value is
    either [nil] or a pointer to one. *)
Record informerCache : Type := mkInformerCache {
  cache_InformersMap : InformersMap
}.

(** Lines 110-115: default the resync period to 10 hours if unset, then
    [return opts, nil]. *)
Definition Default_resync (opts : Options) : M (Options * option error) :=
  opts ← match Resync opts with
         | None =>
             r ← new_Duration (10 * time.Hour);
             mret (mkOptions (Scheme opts) (Mapper opts) (Some r))
         | Some _ => mret opts
         end;
  mret (opts, None).

Definition Default (config : rest_Config) (opts : Options) : M (Options * option error) :=
  (* Use the default Kubernetes Scheme if unset *)
  let opts := match Scheme opts with
              | None => mkOptions (Some scheme_Scheme) (Mapper opts) (Resync opts)
              | Some _ => opts
              end in
  (* Construct a new Mapper if unset *)
  match Mapper opts with
  | None =>
      let '(m, err) := NewDiscoveryRESTMapper config in
      let opts := mkOptions (Scheme opts) m (Resync opts) in
      match err with
      | Some e =>
          _ ← log_WithName_Error "setup" e "Failed to get API Group-Resources";
          mret (opts, Some (fmt_Errorf "could not create RESTMapper from config"))
      | None => Default_resync opts
      end
  | Some _ => Default_resync opts
  end.

(** New initializes and returns a new Cache *)
Definition New (config : rest_Config) (opts : Options)
  : M (option informerCache * option error) :=
  '(opts, err) ← Default config opts;
  match err with
  | Some e => mret (None, Some e)
  | None =>
      resync ← deref_Duration (Resync opts);
      let im := NewInformersMap config (Scheme opts) (Mapper opts) resync in
      mret (Some (mkInformerCache im), None)
  end.

(** The scheme held by [opts] after the first statement of [Default]. *)
Definition defaulted_Scheme (opts : Options) : option Scheme_ptr :=
  match Scheme opts with
  | None => Some scheme_Scheme
  | Some s => Some s
  end.
End Cache.

Arguments mkOptions {_ _} _ _ _.
Arguments Scheme {_ _} _.
Arguments Mapper {_ _} _.
Arguments Resync {_ _} _.
Arguments mkInformerCache {_} _.
Arguments cache_InformersMap {_} _.
Arguments Default_resync {_ _} _ _.
Arguments Default {_ _ _} _ _ _ _ _.
Arguments New {_ _ _ _} _ _ _ _ _ _.
Arguments defaulted_Scheme {_ _} _ _.

(** ** A concrete cluster, used to run the definitions

    The configuration is the API server host; discovery succeeds against
    ["https://10.0.0.1:6443"] and is refused anywhere else.  Scheme
    references are addresses, with [scheme.Scheme] at address 0; the
    registry records the arguments it was built from. *)
Module Fixture.
Definition Config : Type := string.
Definition Scheme_ptr : Type := nat.
Definition RESTMapper : Type := list string.
Definition InformersMap : Type :=
  (Config * option Scheme_ptr * option RESTMapper * time.Duration)%type.

Definition scheme_Scheme : Scheme_ptr := 0%nat.

Definition NewDiscoveryRESTMapper (c : Config) : option RESTMapper * option error :=
  if String.eqb c "https://10.0.0.1:6443"
  then (Some ["pods"; "deployments"], None)
  else (None, Some (errorString "dial tcp: connection refused")).

Definition NewInformersMap (c : Config) (s : option Scheme_ptr)
    (m : option RESTMapper) (resync : time.Duration) : InformersMap :=
  (c, s, m, resync).

Definition empty_Options : Options Scheme_ptr RESTMapper := mkOptions None None None.
Definition w0 : World := mkWorld [] [].
(** A world in which the caller already holds a 30 second resync period. *)
Definition w1 : World := mkWorld [30 * time.Second] [].
Definition full_Options : Options Scheme_ptr RESTMapper :=
  mkOptions (Some 5%nat) (Some ["nodes"]) (Some 0%nat).
End Fixture.

(** ** The informer registry behind [Informers.GetInformerForKind]

    [cache.go] declares the [Informers] interface and embeds
    [internal.InformersMap], whose code is not part of this package.  The
    registry is therefore modelled from the design text: callers are
    threads of a transition system, one atomic action per step, under every
    interleaving. *)
Module Registry.

(** Modelled from the spec: KindKey, the (group, version, kind) triple that
    is the sole map key of the registry. *)
Definition KindKey : Type := (string * string * string)%type.

(** Modelled from the spec: InformerEntry, which owns exactly one watch
    cache primitive.  Entries are identified by the order in which they
    were constructed, their primitive by the constructor call that made
    it. *)
Record InformerEntry : Type := mkEntry {
  entry_key : KindKey;
  entry_primitive : nat
}.

(** Modelled from the spec: a slot of the registry map, either reserved by
    the caller that is constructing the entry, or published with the entry
    every caller will observe (the per-key ready signal of section 5). *)
Inductive slot : Type :=
| Pending
| Ready (e : nat).

(** Modelled from the spec: the points a caller of [GetOrCreate(k)] passes
    through (sections 4.1 and 5): take the coarse lock, check or reserve
    the slot, release, construct outside the lock, re-acquire, publish,
    release; a caller that finds a slot waits for its ready signal.  When
    its constructor call fails, the caller re-acquires the lock, withdraws
    its reservation, so that the key is not marked as failed, and returns
    the error. *)
Inductive pc : Type :=
| Call (k : KindKey)
| Locked (k : KindKey)
| Reserving (k : KindKey)
| ReleaseOwner (k : KindKey)
| ReleaseWaiter (k : KindKey)
| Constructing (k : KindKey)
| Built (k : KindKey) (e : nat)
| Publishing (k : KindKey) (e : nat)
| ReleasePublished (k : KindKey) (e : nat)
| Failed (k : KindKey)
| Withdrawing (k : KindKey)
| ReleaseFailed (k : KindKey)
| Waiting (k : KindKey)
| Returned (k : KindKey) (e : nat) (created : bool)
| ReturnedErr (k : KindKey).

(** Modelled from the spec: the shared state of the registry
    ([internal.InformersMap], whose code is missing here): the coarse lock
    and its holder, the map from KindKey to slot, the log of calls to the
    primitive constructor [NewPrimitive] with their outcome ([true] when
    the call succeeded), the store of entries constructed so far, and the
    callers. *)
Record state : Type := mkState {
  lock : option nat;
  slots : gmap KindKey slot;
  ctor_calls : list (KindKey * bool);
  entries : list InformerEntry;
  threads : list pc
}.

Definition init : state := mkState None ∅ [] [] [].

Definition set_pc (i : nat) (p : pc) (s : state) : state :=
  mkState (lock s) (slots s) (ctor_calls s) (entries s) (<[i:=p]> (threads s)).

Definition set_lock (o : option nat) (s : state) : state :=
  mkState o (slots s) (ctor_calls s) (entries s) (threads s).

Definition set_slot (k : KindKey) (v : slot) (s : state) : state :=
  mkState (lock s) (<[k:=v]> (slots s)) (ctor_calls s) (entries s) (threads s).

Definition withdraw_slot (k : KindKey) (s : state) : state :=
  mkState (lock s) (delete k (slots s)) (ctor_calls s) (entries s) (threads s).

(** Modelled from the spec: one successful invocation of the primitive
    constructor for [k], wrapped in a new entry. *)
Definition construct (k : KindKey) (s : state) : nat * state :=
  (length (entries s),
   mkState (lock s) (slots s) (ctor_calls s ++ [(k, true)])
           (entries s ++ [mkEntry k (length (ctor_calls s))]) (threads s)).

(** Modelled from the spec: one invocation of the primitive constructor for
    [k] that fails (PrimitiveConstructionError): no entry comes of it. *)
Definition construct_failing (k : KindKey) (s : state) : state :=
  mkState (lock s) (slots s) (ctor_calls s ++ [(k, false)]) (entries s) (threads s).

(** Modelled from the spec: the next atomic action of caller [i] inside
    [GetOrCreate] (sections 4.1, 5 and 7), the get-or-create path of
    [internal.InformersMap] that [GetInformerForKind] delegates to and
    whose code is missing here.  [ok] is the outcome of the constructor
    call, should the caller be about to make it.  [None]: the caller cannot
    move (the lock is held, the ready signal has not fired, it has
    returned, or it is not at the constructor call that is to fail).  A
    construction failure goes to the caller that made the call and to no
    other: it withdraws its reservation, and the callers that were waiting
    on it start over. *)
Definition step_thread (ok : bool) (i : nat) (s : state) : option state :=
  p ← threads s !! i;
  match p, ok with
  | Constructing k, true =>
      let '(e, s') := construct k s in Some (set_pc i (Built k e) s')
  | Constructing k, false =>
      Some (set_pc i (Failed k) (construct_failing k s))
  | _, false => None
  | Call k, true =>
      match lock s with
      | None => Some (set_pc i (Locked k) (set_lock (Some i) s))
      | Some _ => None
      end
  | Locked k, true =>
      match slots s !! k with
      | None => Some (set_pc i (Reserving k) s)
      | Some _ => Some (set_pc i (ReleaseWaiter k) s)
      end
  | Reserving k, true => Some (set_pc i (ReleaseOwner k) (set_slot k Pending s))
  | ReleaseOwner k, true => Some (set_pc i (Constructing k) (set_lock None s))
  | ReleaseWaiter k, true => Some (set_pc i (Waiting k) (set_lock None s))
  | Built k e, true =>
      match lock s with
      | None => Some (set_pc i (Publishing k e) (set_lock (Some i) s))
      | Some _ => None
      end
  | Publishing k e, true =>
      Some (set_pc i (ReleasePublished k e) (set_slot k (Ready e) s))
  | ReleasePublished k e, true => Some (set_pc i (Returned k e true) (set_lock None s))
  | Failed k, true =>
      match lock s with
      | None => Some (set_pc i (Withdrawing k) (set_lock (Some i) s))
      | Some _ => None
      end
  | Withdrawing k, true => Some (set_pc i (ReleaseFailed k) (withdraw_slot k s))
  | ReleaseFailed k, true => Some (set_pc i (ReturnedErr k) (set_lock None s))
  | Waiting k, true =>
      match slots s !! k with
      | Some (Ready e) => Some (set_pc i (Returned k e false) s)
      | Some Pending => None
      | None => Some (set_pc i (Call k) s)
      end
  | Returned _ _ _, true => None
  | ReturnedErr _, true => None
  end.

(** Modelled from the spec: what may happen next: a new caller of
    [GetOrCreate(k)] is admitted (callers arrive at any time, in any
    number), caller [i] takes its next step, or the constructor call that
    caller [i] is about to make fails. *)
Inductive action : Type :=
| Arrive (k : KindKey)
| Run (i : nat)
| Fail (i : nat).

Definition step (a : action) (s : state) : option state :=
  match a with
  | Arrive k =>
      Some (mkState (lock s) (slots s) (ctor_calls s) (entries s) (threads s ++ [Call k]))
  | Run i => step_thread true i s
  | Fail i => step_thread false i s
  end.





(** Three callers race for the pods informer: the first reserves the slot,
    the second arrives during construction, the third after publication. *)
Definition pods : KindKey := ("", "v1", "Pod").

Definition race : list action :=
  [Arrive pods; Arrive pods;
   Run 0; Run 0; Run 0; Run 0;
   Run 1; Run 1; Run 1;
   Run 0; Run 0; Run 0; Run 0;
   Run 1;
   Arrive pods; Run 2; Run 2; Run 2; Run 2]%nat.

(** The state the race ends in: one constructor call, one entry, the slot
    published, and all three callers holding entry 0. *)
Definition race_end : state :=
  mkState None {[ pods := Ready 0%nat ]} [(pods, true)] [mkEntry pods 0]
          [Returned pods 0 true; Returned pods 0 false; Returned pods 0 false]%nat.



(** *** The invariant of the registry *)
















End Registry.

(** ** Waiting for the caches to sync: [Informers.WaitForCacheSync]

    [cache.go] declares the method and its contract ("waits for all the
    caches to sync; returns false if it could not sync a cache"); the code
    is that of [internal.InformersMap], which is not part of this package.
    The wait is therefore modelled from the design text, as a machine run
    by the events that can reach a blocked caller. *)
Module SyncWait.

(** Modelled from the spec: what can happen while a call of
    [WaitForAllSynced] is under way (sections 4.1 and 5; the code of
    [internal.InformersMap] is missing here): the primitive of an entry
    completes its initial list, so that its [HasSynced] turns true; the
    cancellation signal fires; the waiter fanned out for an entry looks at
    it; the caller joins its waiters. *)
Inductive event : Type :=
| EntrySynced (e : nat)
| StopClosed
| Observe (e : nat)
| Join.

(** Modelled from the spec: the state the call runs in: the entries whose
    [HasSynced] is true, whether the cancellation signal has fired, the
    verdicts of the per-entry waiters that are done, and the value the
    call has returned, if it has. *)
Record state : Type := mkState {
  has_synced : gset nat;
  stopped : bool;
  verdicts : gmap nat bool;
  result : option bool
}.

Definition init : state := mkState ∅ false ∅ None.

(** Modelled from the spec: the waiter of entry [e], one of those fanned
    out over the snapshot of the registered entries.  It gives up as soon
    as it sees the cancellation signal ("returns false if cancellation
    fires first, even if synchronization later would have succeeded"),
    is done once it sees the entry synced, and otherwise keeps waiting. *)
Definition observe (snapshot : list nat) (e : nat) (s : state) : state :=
  if bool_decide (e ∈ snapshot ∧ verdicts s !! e = None ∧ result s = None) then
    if stopped s then
      mkState (has_synced s) (stopped s) (<[e:=false]> (verdicts s)) (result s)
    else if bool_decide (e ∈ has_synced s) then
      mkState (has_synced s) (stopped s) (<[e:=true]> (verdicts s)) (result s)
    else s
  else s.

(** Modelled from the spec: the caller joins "on completion or
    cancellation": on cancellation it returns false promptly; once every
    waiter of the snapshot is done it returns whether all of them saw
    their entry synced; otherwise it stays blocked. *)
Definition join (snapshot : list nat) (s : state) : state :=
  match result s with
  | Some _ => s
  | None =>
      if stopped s then
        mkState (has_synced s) (stopped s) (verdicts s) (Some false)
      else if forallb (λ e, bool_decide (is_Some (verdicts s !! e))) snapshot then
        mkState (has_synced s) (stopped s) (verdicts s)
                (Some (forallb (λ e, bool_decide (verdicts s !! e = Some true)) snapshot))
      else s
  end.

(** Modelled from the spec: one event.  Background synchronization goes on
    whatever the caller does, and is not aborted by the cancellation. *)
Definition step (snapshot : list nat) (s : state) (ev : event) : state :=
  match ev with
  | EntrySynced e =>
      mkState ({[e]} ∪ has_synced s) (stopped s) (verdicts s) (result s)
  | StopClosed => mkState (has_synced s) true (verdicts s) (result s)
  | Observe e => observe snapshot e s
  | Join => join snapshot s
  end.

(** Modelled from the spec: [WaitForAllSynced] (the code behind
    [WaitForCacheSync], missing here) on the entries of [snapshot], the
    ones registered when the call was made, along a trace of events;
    [result] of the final state is the value returned, [None] while the
    call is still blocked. *)
Definition WaitForAllSynced (snapshot : list nat) (trace : list event) : state :=
  foldl (step snapshot) init trace.

(** Entry [e] reported synced before the cancellation signal fired. *)
Definition synced_before_stop (e : nat) (trace : list event) : Prop :=
  ∃ pre post, trace = pre ++ EntrySynced e :: post ∧ StopClosed ∉ pre.

(** The single entry syncs, then the signal fires, and only then does the
    waiter get to look. *)
Definition late_look : list event := [EntrySynced 0; StopClosed; Observe 0; Join]%nat.

(** Both entries sync and are seen synced, the caller joins, and the signal
    fires afterwards. *)
Definition all_seen : list event :=
  [EntrySynced 1; Observe 1; EntrySynced 0; Observe 0; Join; StopClosed]%nat.

End SyncWait.

(** * Properties of [Default] and [New] *)

(** Ten hours, in nanoseconds, fit an [int64]. *)
Lemma ten_hours_ns : 10 * time.Hour = 36000000000000.
Proof. reflexivity. Qed.

Lemma ten_hours_in_int64 : time.in_int64 (10 * time.Hour).
Proof. unfold time.in_int64, time.int64_min, time.int64_max. rewrite ten_hours_ns. lia. Qed.

Section CacheProperties.
Context {rest_Config Scheme_ptr RESTMapper InformersMap : Type}.
Variable scheme_Scheme : Scheme_ptr.
Variable discover : rest_Config → option RESTMapper * option error.
Variable NewInformersMap :
  rest_Config → option Scheme_ptr → option RESTMapper → time.Duration → InformersMap.

Lemma Default_resync_set (opts : Options Scheme_ptr RESTMapper) r w :
  Resync opts = Some r →
  Default_resync opts w = Some ((opts, None), w).
Proof. intros Hr. unfold Default_resync, mbind, M_bind, mret, M_ret. by rewrite Hr. Qed.

Lemma Default_resync_unset (opts : Options Scheme_ptr RESTMapper) w :
  Resync opts = None →
  Default_resync opts w =
    Some ((mkOptions (Scheme opts) (Mapper opts) (Some (length (durations w))), None),
          mkWorld (durations w ++ [10 * time.Hour]) (logged w)).
Proof. intros Hr. unfold Default_resync, mbind, M_bind, mret, M_ret. by rewrite Hr. Qed.

(** The three ways through [Default]. *)
Lemma Default_Mapper_set config opts m w :
  Mapper opts = Some m →
  Default scheme_Scheme discover config opts w =
    Default_resync (mkOptions (defaulted_Scheme scheme_Scheme opts) (Some m) (Resync opts)) w.
Proof.
  intros Hm. unfold Default, defaulted_Scheme.
  destruct opts as [[s|] mp r]; simpl in *; subst; reflexivity.
Qed.

Lemma Default_discovery_ok config opts m w :
  Mapper opts = None →
  discover config = (m, None) →
  Default scheme_Scheme discover config opts w =
    Default_resync (mkOptions (defaulted_Scheme scheme_Scheme opts) m (Resync opts)) w.
Proof.
  intros Hm Hd. unfold Default, defaulted_Scheme.
  destruct opts as [[s|] mp r]; simpl in *; subst; rewrite Hd; reflexivity.
Qed.

Lemma Default_discovery_failed config opts m cause w :
  Mapper opts = None →
  discover config = (m, Some cause) →
  Default scheme_Scheme discover config opts w =
    Some ((mkOptions (defaulted_Scheme scheme_Scheme opts) m (Resync opts),
           Some (fmt_Errorf "could not create RESTMapper from config")),
          with_setup_error cause w).
Proof.
  intros Hm Hd. unfold Default, defaulted_Scheme.
  destruct opts as [[s|] mp r]; simpl in *; subst; rewrite Hd; reflexivity.
Qed.

(** [Default] never panics, and tells which way it went. *)
Lemma Default_total config opts w :
  ∃ opts' err w', Default scheme_Scheme discover config opts w = Some ((opts', err), w').
Proof.
  destruct (Mapper opts) as [m|] eqn:Hm.
  - rewrite (Default_Mapper_set _ _ _ _ Hm).
    destruct (Resync opts) as [r|] eqn:Hr.
    + rewrite (Default_resync_set _ r); eauto.
    + rewrite Default_resync_unset; eauto.
  - destruct (discover config) as [m [cause|]] eqn:Hd.
    + rewrite (Default_discovery_failed _ _ _ _ _ Hm Hd); eauto.
    + rewrite (Default_discovery_ok _ _ _ _ Hm Hd).
      destruct (Resync opts) as [r|] eqn:Hr.
      * rewrite (Default_resync_set _ r); eauto.
      * rewrite Default_resync_unset; eauto.
Qed.

Lemma New_unfold config opts w :
  New scheme_Scheme discover NewInformersMap config opts w =
    match Default scheme_Scheme discover config opts w with
    | Some ((opts', Some e), w') => Some ((None, Some e), w')
    | Some ((opts', None), w') =>
        match deref_Duration (Resync opts') w' with
        | Some (resync, w'') =>
            Some ((Some (mkInformerCache
                           (NewInformersMap config (Scheme opts') (Mapper opts') resync)),
                   None), w'')
        | None => None
        end
    | None => None
    end.
Proof.
  unfold New, mbind, M_bind, mret, M_ret.
  destruct (Default scheme_Scheme discover config opts w) as [[[opts' [e|]] w']|]; reflexivity.
Qed.

(** C1: with the mapper unset and discovery failing, [New] returns a nil
    cache together with an error; the registry constructor is not reached
    and nothing is allocated, the only trace being the logged cause. *)
Theorem New_aborts_when_discovery_fails config opts m cause w :
  Mapper opts = None →
  discover config = (m, Some cause) →
  New scheme_Scheme discover NewInformersMap config opts w =
    Some ((None, Some (fmt_Errorf "could not create RESTMapper from config")),
          with_setup_error cause w).
Proof.
  intros Hm Hd. rewrite New_unfold.
  by rewrite (Default_discovery_failed _ _ _ _ _ Hm Hd).
Qed.

(** C3: when [Resync] is unset, the configuration that [Default] returns
    (with a nil error) points to a resync period of exactly ten hours, and
    that is the period [New] hands to the registry. *)
Theorem Default_Resync_unset_is_ten_hours config opts w opts' w' :
  Resync opts = None →
  Default scheme_Scheme discover config opts w = Some ((opts', None), w') →
  deref_Duration (Resync opts') w' = Some (10 * time.Hour, w') ∧
  New scheme_Scheme discover NewInformersMap config opts w =
    Some ((Some (mkInformerCache
                   (NewInformersMap config (Scheme opts') (Mapper opts') (10 * time.Hour))),
           None), w').
Proof.
  intros Hr HD.
  assert (Resync opts' = Some (length (durations w)) ∧
          durations w' = durations w ++ [10 * time.Hour]) as [Hr' Hw'].
  { destruct (Mapper opts) as [m|] eqn:Hm.
    - rewrite (Default_Mapper_set _ _ _ _ Hm), Default_resync_unset in HD by done.
      by simplify_eq.
    - destruct (discover config) as [m [cause|]] eqn:Hd.
      + rewrite (Default_discovery_failed _ _ _ _ _ Hm Hd) in HD. simplify_eq.
      + rewrite (Default_discovery_ok _ _ _ _ Hm Hd), Default_resync_unset in HD by done.
        by simplify_eq. }
  assert (deref_Duration (Resync opts') w' = Some (10 * time.Hour, w')) as Hderef.
  { unfold deref_Duration. rewrite Hr', Hw'.
    rewrite lookup_app_r, Nat.sub_diag by lia. reflexivity. }
  split; [done|].
  rewrite New_unfold, HD, Hderef. reflexivity.
Qed.

(** C4: when [Scheme] is unset, the options [Default] returns, with or
    without an error, hold the package variable [scheme.Scheme] itself: the
    same reference for every call, nothing being constructed.  That
    reference is also the scheme [New] builds the registry with. *)
Theorem Default_Scheme_unset_is_scheme_Scheme config opts w :
  Scheme opts = None →
  (∃ opts' err w',
     Default scheme_Scheme discover config opts w = Some ((opts', err), w') ∧
     Scheme opts' = Some scheme_Scheme) ∧
  (∀ c err w',
     New scheme_Scheme discover NewInformersMap config opts w
       = Some ((Some c, err), w') →
     ∃ m resync,
       c = mkInformerCache (NewInformersMap config (Some scheme_Scheme) m resync)).
Proof.
  intros Hs.
  assert (∃ opts' err w',
            Default scheme_Scheme discover config opts w = Some ((opts', err), w') ∧
            Scheme opts' = Some scheme_Scheme) as HD.
  { assert (defaulted_Scheme scheme_Scheme opts = Some scheme_Scheme) as Hds
      by (unfold defaulted_Scheme; by rewrite Hs).
    destruct (Mapper opts) as [m|] eqn:Hm.
    - rewrite (Default_Mapper_set _ _ _ _ Hm), Hds.
      destruct (Resync opts) as [r|] eqn:Hr.
      + rewrite (Default_resync_set _ r) by done. eauto.
      + rewrite Default_resync_unset by done. eauto.
    - destruct (discover config) as [m [cause|]] eqn:Hd.
      + rewrite (Default_discovery_failed _ _ _ _ _ Hm Hd), Hds. eauto.
      + rewrite (Default_discovery_ok _ _ _ _ Hm Hd), Hds.
        destruct (Resync opts) as [r|] eqn:Hr.
        * rewrite (Default_resync_set _ r) by done. eauto.
        * rewrite Default_resync_unset by done. eauto. }
  split; [exact HD|].
  destruct HD as (opts' & err0 & w0 & HD & Hs').
  intros c err w' HN. rewrite New_unfold, HD in HN.
  destruct err0 as [e|]; [by simplify_eq|].
  destruct (deref_Duration (Resync opts') w0) as [[resync w'']|]; simplify_eq.
  rewrite Hs'. eauto.
Qed.

(** Every run of [Default] is one of: discovery failed; or the mapper was
    given or discovered, and the resync period was given or defaulted. *)
Lemma Default_outcomes config opts w :
  (∃ m cause,
      Mapper opts = None ∧ discover config = (m, Some cause) ∧
      Default scheme_Scheme discover config opts w =
        Some ((mkOptions (defaulted_Scheme scheme_Scheme opts) m (Resync opts),
               Some (fmt_Errorf "could not create RESTMapper from config")),
              with_setup_error cause w))
  ∨ (∃ mapper',
      ((∃ m, Mapper opts = Some m ∧ mapper' = Some m) ∨
       (Mapper opts = None ∧ discover config = (mapper', None))) ∧
      ((∃ r, Resync opts = Some r ∧
             Default scheme_Scheme discover config opts w =
               Some ((mkOptions (defaulted_Scheme scheme_Scheme opts) mapper' (Some r),
                      None), w))
       ∨ (Resync opts = None ∧
          Default scheme_Scheme discover config opts w =
            Some ((mkOptions (defaulted_Scheme scheme_Scheme opts) mapper'
                             (Some (length (durations w))), None),
                  mkWorld (durations w ++ [10 * time.Hour]) (logged w))))).
Proof.
  destruct (Mapper opts) as [m|] eqn:Hm.
  - right. exists (Some m). split; [eauto|].
    rewrite (Default_Mapper_set _ _ _ _ Hm).
    destruct (Resync opts) as [r|] eqn:Hr.
    + left. exists r. by rewrite (Default_resync_set _ r).
    + right. by rewrite Default_resync_unset.
  - destruct (discover config) as [m [cause|]] eqn:Hd.
    + left. exists m, cause. by rewrite (Default_discovery_failed _ _ _ _ _ Hm Hd).
    + right. exists m. split; [eauto|].
      rewrite (Default_discovery_ok _ _ _ _ Hm Hd).
      destruct (Resync opts) as [r|] eqn:Hr.
      * left. exists r. by rewrite (Default_resync_set _ r).
      * right. by rewrite Default_resync_unset.
Qed.

Lemma defaulted_Scheme_set (opts : Options Scheme_ptr RESTMapper) s :
  Scheme opts = Some s → defaulted_Scheme scheme_Scheme opts = Some s.
Proof. intros Hs. unfold defaulted_Scheme. by rewrite Hs. Qed.

Lemma defaulted_Scheme_is_Some (opts : Options Scheme_ptr RESTMapper) :
  is_Some (defaulted_Scheme scheme_Scheme opts).
Proof. unfold defaulted_Scheme. destruct (Scheme opts); eauto. Qed.

(** C5: [Default] only fills gaps.  A field that was set comes back
    unchanged, and nothing the caller's options point to is written: every
    [time.Duration] variable that existed before still holds its value.
    (The [Options] struct itself is passed by value, so the assignments in
    [Default] act on the callee's copy.) *)
Theorem Default_only_fills_gaps config opts w :
  ∃ opts' err w',
    Default scheme_Scheme discover config opts w = Some ((opts', err), w') ∧
    (∀ s, Scheme opts = Some s → Scheme opts' = Some s) ∧
    (∀ m, Mapper opts = Some m → Mapper opts' = Some m) ∧
    (∀ r, Resync opts = Some r → Resync opts' = Some r) ∧
    (∀ l d, durations w !! l = Some d → durations w' !! l = Some d).
Proof.
  destruct (Default_outcomes config opts w)
    as [(m & cause & Hm & Hd & ->)
       |(mp & Hmp & [(r & Hr & ->)|(Hr & ->)])];
    do 3 eexists; (split; [reflexivity|]); simpl;
    (split; [intros s Hs; by apply defaulted_Scheme_set|]).
  - split; [intros m' Hm'; congruence|]. split; [done|done].
  - split; [intros m' Hm'; destruct Hmp as [(m0 & Hm0 & ->)|[Hm0 _]]; congruence|].
    split; [intros r' Hr'; congruence|done].
  - split; [intros m' Hm'; destruct Hmp as [(m0 & Hm0 & ->)|[Hm0 _]]; congruence|].
    split; [intros r' Hr'; congruence|].
    intros l d Hl. by apply lookup_app_l_Some.
Qed.

(** C6: provided discovery hands back a mapper whenever it reports no
    error, options returned by [Default] with a nil error have all three
    fields set, and the resync pointer can be dereferenced. *)
Theorem Default_result_fully_populated config opts w opts' w' :
  (∀ m, Mapper opts = None → discover config = (m, None) → is_Some m) →
  valid_ptr w (Resync opts) →
  Default scheme_Scheme discover config opts w = Some ((opts', None), w') →
  is_Some (Scheme opts') ∧ is_Some (Mapper opts') ∧ is_Some (Resync opts') ∧
  is_Some (deref_Duration (Resync opts') w').
Proof.
  intros Hcontract Hvalid HD.
  destruct (Default_outcomes config opts w)
    as [(m & cause & Hm & Hd & HD')
       |(mp & Hmp & [(r & Hr & HD')|(Hr & HD')])];
    rewrite HD' in HD; simplify_eq; simpl.
  - split; [apply defaulted_Scheme_is_Some|].
    split; [destruct Hmp as [(m & _ & ->)|[Hm Hd]]; eauto|].
    split; [eauto|].
    destruct (Hvalid r Hr) as [d Hd]. unfold deref_Duration. rewrite Hd. simpl. eauto.
  - split; [apply defaulted_Scheme_is_Some|].
    split; [destruct Hmp as [(m & _ & ->)|[Hm Hd]]; eauto|].
    split; [eauto|].
    unfold deref_Duration. simpl.
    rewrite lookup_app_r, Nat.sub_diag by lia. simpl. eauto.
Qed.

(** C8, as the code has it: whenever [Default] returns an error, the mapper
    was unset and discovery failed; the error is the fixed message
    ["could not create RESTMapper from config"], which names the stage and
    is the same for every cause; the cause itself goes to the setup logger
    and nowhere else; and [New] passes that error on unchanged, with a nil
    cache. *)
Theorem construction_error_names_discovery config opts w opts' err w' :
  Default scheme_Scheme discover config opts w = Some ((opts', Some err), w') →
  err = fmt_Errorf "could not create RESTMapper from config" ∧
  Mapper opts = None ∧
  (∃ m cause, discover config = (m, Some cause) ∧ w' = with_setup_error cause w) ∧
  New scheme_Scheme discover NewInformersMap config opts w = Some ((None, Some err), w').
Proof.
  intros HD.
  destruct (Default_outcomes config opts w)
    as [(m & cause & Hm & Hd & HD')
       |(mp & Hmp & [(r & Hr & HD')|(Hr & HD')])];
    rewrite HD' in HD; simplify_eq.
  split; [done|]. split; [done|]. split; [eauto|].
  by rewrite New_unfold, HD'.
Qed.

(** C9: with the mapper set, [Default] and [New] return no error, nothing
    is logged, and the result does not depend on the discovery call at
    all. *)
Theorem no_error_when_Mapper_set config opts m w :
  Mapper opts = Some m →
  valid_ptr w (Resync opts) →
  (∃ opts' w', Default scheme_Scheme discover config opts w = Some ((opts', None), w') ∧
               Mapper opts' = Some m ∧ logged w' = logged w) ∧
  (∃ c w', New scheme_Scheme discover NewInformersMap config opts w
             = Some ((Some c, None), w')) ∧
  (∀ discover' : rest_Config → option RESTMapper * option error,
      Default scheme_Scheme discover' config opts w
        = Default scheme_Scheme discover config opts w ∧
      New scheme_Scheme discover' NewInformersMap config opts w
        = New scheme_Scheme discover NewInformersMap config opts w).
Proof.
  intros Hm Hvalid.
  assert (∀ d : rest_Config → option RESTMapper * option error,
            Default scheme_Scheme d config opts w =
              Default_resync (mkOptions (defaulted_Scheme scheme_Scheme opts) (Some m)
                                        (Resync opts)) w) as Hany.
  { intros d. unfold Default, defaulted_Scheme.
    destruct opts as [[s|] mp r]; simpl in *; subst; reflexivity. }
  assert (∃ opts' w', Default scheme_Scheme discover config opts w = Some ((opts', None), w') ∧
                      Mapper opts' = Some m ∧ logged w' = logged w ∧
                      is_Some (deref_Duration (Resync opts') w'))
    as (opts' & w' & HD & Hm' & Hlog & [[d w''] Hderef]).
  { rewrite Hany. destruct (Resync opts) as [r|] eqn:Hr.
    - rewrite (Default_resync_set _ r) by done. do 2 eexists. split; [done|].
      simpl. split; [done|]. split; [done|].
      destruct (Hvalid r eq_refl) as [d Hd]. unfold deref_Duration. rewrite Hd. simpl. eauto.
    - rewrite Default_resync_unset by done. do 2 eexists. split; [done|].
      simpl. split; [done|]. split; [done|].
      unfold deref_Duration. simpl. rewrite lookup_app_r, Nat.sub_diag by lia. simpl. eauto. }
  split; [eauto|]. split.
  - rewrite New_unfold, HD, Hderef. eauto.
  - intros d'. split; [by rewrite !Hany|].
    unfold New. unfold mbind at 1 3, M_bind. by rewrite !Hany.
Qed.

(** C10: when discovery fails, [Default] still returns options next to the
    error: the scheme default has been applied, the resync field is as the
    caller supplied it, and no [time.Duration] variable was created. *)
Theorem Default_partial_on_discovery_failure config opts m cause w :
  Mapper opts = None →
  discover config = (m, Some cause) →
  ∃ opts' err w',
    Default scheme_Scheme discover config opts w = Some ((opts', Some err), w') ∧
    is_Some (Scheme opts') ∧
    (Scheme opts = None → Scheme opts' = Some scheme_Scheme) ∧
    Resync opts' = Resync opts ∧
    durations w' = durations w.
Proof.
  intros Hm Hd. rewrite (Default_discovery_failed _ _ _ _ _ Hm Hd).
  do 3 eexists. split; [reflexivity|]. simpl.
  split; [apply defaulted_Scheme_is_Some|].
  split; [|done].
  intros Hs. unfold defaulted_Scheme. by rewrite Hs.
Qed.

End CacheProperties.

(** ** The theorems at work on the concrete cluster *)

Lemma New_aborts_when_discovery_fails_witness :
  Mapper Fixture.empty_Options = None ∧
  Fixture.NewDiscoveryRESTMapper "https://192.0.2.7:6443"
    = (None, Some (errorString "dial tcp: connection refused")) ∧
  New Fixture.scheme_Scheme Fixture.NewDiscoveryRESTMapper Fixture.NewInformersMap
      "https://192.0.2.7:6443" Fixture.empty_Options Fixture.w0
    = Some ((None, Some (errorString "could not create RESTMapper from config")),
            mkWorld [] [mkLogRecord ["object-cache"; "setup"]
                          (errorString "dial tcp: connection refused")
                          "Failed to get API Group-Resources"]).
Proof.
  split; [reflexivity|]. split; [reflexivity|].
  apply (New_aborts_when_discovery_fails
           Fixture.scheme_Scheme Fixture.NewDiscoveryRESTMapper Fixture.NewInformersMap
           "https://192.0.2.7:6443" Fixture.empty_Options None
           (errorString "dial tcp: connection refused") Fixture.w0);
    reflexivity.
Defined.

Lemma Default_Resync_unset_is_ten_hours_witness :
  Resync Fixture.empty_Options = None ∧
  deref_Duration (Some 0%nat) (mkWorld [36000000000000] [])
    = Some (36000000000000, mkWorld [36000000000000] []) ∧
  New Fixture.scheme_Scheme Fixture.NewDiscoveryRESTMapper Fixture.NewInformersMap
      "https://10.0.0.1:6443" Fixture.empty_Options Fixture.w0
    = Some ((Some (mkInformerCache
                     ("https://10.0.0.1:6443", Some 0%nat,
                      Some ["pods"; "deployments"], 36000000000000)),
             None), mkWorld [36000000000000] []).
Proof.
  split; [reflexivity|].
  apply (Default_Resync_unset_is_ten_hours
           Fixture.scheme_Scheme Fixture.NewDiscoveryRESTMapper Fixture.NewInformersMap
           "https://10.0.0.1:6443" Fixture.empty_Options Fixture.w0
           (mkOptions (Some 0%nat) (Some ["pods"; "deployments"]) (Some 0%nat))
           (mkWorld [36000000000000] []));
    reflexivity.
Defined.

Lemma Default_Scheme_unset_is_scheme_Scheme_witness :
  Scheme Fixture.empty_Options = None ∧
  ∃ opts' err w',
    Default Fixture.scheme_Scheme Fixture.NewDiscoveryRESTMapper
            "https://192.0.2.7:6443" Fixture.empty_Options Fixture.w0
      = Some ((opts', err), w') ∧
    Scheme opts' = Some Fixture.scheme_Scheme.
Proof.
  split; [reflexivity|].
  apply (Default_Scheme_unset_is_scheme_Scheme
           Fixture.scheme_Scheme Fixture.NewDiscoveryRESTMapper Fixture.NewInformersMap
           "https://192.0.2.7:6443" Fixture.empty_Options Fixture.w0).
  reflexivity.
Defined.

Lemma Default_result_fully_populated_witness :
  let opts' := mkOptions (Some 0%nat) (Some ["pods"; "deployments"]) (Some 0%nat) in
  let w' := mkWorld [36000000000000] [] in
  Default Fixture.scheme_Scheme Fixture.NewDiscoveryRESTMapper
          "https://10.0.0.1:6443" Fixture.empty_Options Fixture.w0
    = Some ((opts', None), w') ∧
  is_Some (Scheme opts') ∧ is_Some (Mapper opts') ∧ is_Some (Resync opts') ∧
  is_Some (deref_Duration (Resync opts') w').
Proof.
  split; [reflexivity|].
  apply (Default_result_fully_populated
           Fixture.scheme_Scheme Fixture.NewDiscoveryRESTMapper
           "https://10.0.0.1:6443" Fixture.empty_Options Fixture.w0).
  - intros m _ Hd. vm_compute in Hd. inversion Hd. eexists. reflexivity.
  - intros l Hl. discriminate Hl.
  - reflexivity.
Defined.

Lemma construction_error_names_discovery_witness :
  let err := errorString "could not create RESTMapper from config" in
  let w' := mkWorld [30 * time.Second]
              [mkLogRecord ["object-cache"; "setup"]
                 (errorString "dial tcp: connection refused")
                 "Failed to get API Group-Resources"] in
  Default Fixture.scheme_Scheme Fixture.NewDiscoveryRESTMapper "https://192.0.2.7:6443"
          (mkOptions None None (Some 0%nat)) Fixture.w1
    = Some ((mkOptions (Some 0%nat) None (Some 0%nat), Some err), w') ∧
  New Fixture.scheme_Scheme Fixture.NewDiscoveryRESTMapper Fixture.NewInformersMap
      "https://192.0.2.7:6443" (mkOptions None None (Some 0%nat)) Fixture.w1
    = Some ((None, Some err), w').
Proof.
  split; [reflexivity|].
  apply (construction_error_names_discovery
           Fixture.scheme_Scheme Fixture.NewDiscoveryRESTMapper Fixture.NewInformersMap
           "https://192.0.2.7:6443" (mkOptions None None (Some 0%nat)) Fixture.w1
           (mkOptions (Some 0%nat) None (Some 0%nat))).
  reflexivity.
Defined.

Lemma no_error_when_Mapper_set_witness :
  Mapper Fixture.full_Options = Some ["nodes"] ∧
  valid_ptr Fixture.w1 (Resync Fixture.full_Options) ∧
  ∃ c w',
    New Fixture.scheme_Scheme Fixture.NewDiscoveryRESTMapper Fixture.NewInformersMap
        "https://192.0.2.7:6443" Fixture.full_Options Fixture.w1
      = Some ((Some c, None), w').
Proof.
  assert (valid_ptr Fixture.w1 (Resync Fixture.full_Options)) as Hvalid.
  { intros l Hl. injection Hl as <-. eexists. reflexivity. }
  split; [reflexivity|]. split; [exact Hvalid|].
  apply (no_error_when_Mapper_set
           Fixture.scheme_Scheme Fixture.NewDiscoveryRESTMapper Fixture.NewInformersMap
           "https://192.0.2.7:6443" Fixture.full_Options ["nodes"] Fixture.w1
           eq_refl Hvalid).
Defined.

Lemma Default_partial_on_discovery_failure_witness :
  Mapper Fixture.empty_Options = None ∧
  Fixture.NewDiscoveryRESTMapper "https://192.0.2.7:6443"
    = (None, Some (errorString "dial tcp: connection refused")) ∧
  ∃ opts' err w',
    Default Fixture.scheme_Scheme Fixture.NewDiscoveryRESTMapper
            "https://192.0.2.7:6443" Fixture.empty_Options Fixture.w0
      = Some ((opts', Some err), w') ∧
    is_Some (Scheme opts') ∧
    (Scheme Fixture.empty_Options = None → Scheme opts' = Some Fixture.scheme_Scheme) ∧
    Resync opts' = Resync Fixture.empty_Options ∧
    durations w' = durations Fixture.w0.
Proof.
  split; [reflexivity|]. split; [reflexivity|].
  apply (Default_partial_on_discovery_failure
           Fixture.scheme_Scheme Fixture.NewDiscoveryRESTMapper
           "https://192.0.2.7:6443" Fixture.empty_Options None
           (errorString "dial tcp: connection refused") Fixture.w0);
    reflexivity.
Defined.

(** C8, as stated, fails: discovery is refused with
    ["dial tcp: connection refused"], and the error [Default] returns does
    not carry that cause. *)
Lemma Default_error_drops_the_cause :
  Fixture.NewDiscoveryRESTMapper "https://192.0.2.7:6443"
    = (None, Some (errorString "dial tcp: connection refused")) ∧
  Default Fixture.scheme_Scheme Fixture.NewDiscoveryRESTMapper
          "https://192.0.2.7:6443" Fixture.empty_Options Fixture.w0
    = Some ((mkOptions (Some 0%nat) None None,
             Some (errorString "could not create RESTMapper from config")),
            mkWorld [] [mkLogRecord ["object-cache"; "setup"]
                          (errorString "dial tcp: connection refused")
                          "Failed to get API Group-Resources"]) ∧
  carries_cause (errorString "could not create RESTMapper from config")
                (errorString "dial tcp: connection refused") = false.
Proof. repeat split; reflexivity. Qed.

(** * Further properties of [Default] and [New] *)

Section CacheFurther.
Context {rest_Config Scheme_ptr RESTMapper InformersMap : Type}.
Variable scheme_Scheme : Scheme_ptr.
Variable discover : rest_Config → option RESTMapper * option error.
Variable NewInformersMap :
  rest_Config → option Scheme_ptr → option RESTMapper → time.Duration → InformersMap.

(** What a successful [Default] leaves in [Resync]: the caller's pointer,
    or the address of the variable it has just created. *)
Lemma Default_success_shape config opts w opts' w' :
  Default scheme_Scheme discover config opts w = Some ((opts', None), w') →
  Scheme opts' = defaulted_Scheme scheme_Scheme opts ∧
  ((∃ m, Mapper opts = Some m ∧ Mapper opts' = Some m) ∨
   (Mapper opts = None ∧ discover config = (Mapper opts', None))) ∧
  ((∃ r, Resync opts = Some r ∧ Resync opts' = Some r ∧ w' = w) ∨
   (Resync opts = None ∧ Resync opts' = Some (length (durations w)) ∧
    w' = mkWorld (durations w ++ [10 * time.Hour]) (logged w))).
Proof.
  intros HD.
  destruct (Default_outcomes scheme_Scheme discover config opts w)
    as [(m & cause & Hm & Hd & HD')
       |(mp & Hmp & [(r & Hr & HD')|(Hr & HD')])];
    rewrite HD' in HD; simplify_eq; simpl.
  - split; [done|]. split; [|left; eauto].
    destruct Hmp as [(m & Hm & ->)|[Hm Hd]]; [left; eauto|right; eauto].
  - split; [done|]. split; [|right; eauto].
    destruct Hmp as [(m & Hm & ->)|[Hm Hd]]; [left; eauto|right; eauto].
Qed.

(** X1: [New] never dereferences a nil [Resync]: whenever the caller's
    resync pointer, if any, is live, [New] returns, and it returns either a
    cache with a nil error or a nil cache with an error, never both and
    never neither.  The error case is exactly the one where the mapper was
    unset and discovery reported an error. *)
Theorem New_returns_cache_or_error config opts w :
  valid_ptr w (Resync opts) →
  (∃ c w',
     New scheme_Scheme discover NewInformersMap config opts w
       = Some ((Some c, None), w') ∧
     (is_Some (Mapper opts) ∨ ∃ m, discover config = (m, None)))
  ∨ (∃ e w',
     New scheme_Scheme discover NewInformersMap config opts w
       = Some ((None, Some e), w') ∧
     Mapper opts = None ∧ ∃ m cause, discover config = (m, Some cause)).
Proof.
  intros Hvalid. rewrite New_unfold.
  destruct (Default_outcomes scheme_Scheme discover config opts w)
    as [(m & cause & Hm & Hd & ->)
       |(mp & Hmp & [(r & Hr & ->)|(Hr & ->)])].
  - right. eauto 10.
  - left. simpl. destruct (Hvalid r Hr) as [d Hd].
    unfold deref_Duration. rewrite Hd. simpl. do 2 eexists. split; [done|].
    destruct Hmp as [(m & Hm & _)|[_ Hd']]; [left; by rewrite Hm|right; eauto].
  - left. simpl. unfold deref_Duration. simpl.
    rewrite lookup_app_r, Nat.sub_diag by lia. simpl. do 2 eexists. split; [done|].
    destruct Hmp as [(m & Hm & _)|[_ Hd']]; [left; by rewrite Hm|right; eauto].
Qed.

(** X2: the registry is built from what the caller supplied.  Whenever
    [New] returns a cache, it wraps [NewInformersMap] applied to the
    caller's own [config], to the caller's scheme and mapper where they
    were set (the mapper being the discovered one otherwise), and to the
    duration the caller's [Resync] points to. *)
Theorem New_builds_registry_from_options config opts w c err w' :
  New scheme_Scheme discover NewInformersMap config opts w = Some ((Some c, err), w') →
  ∃ s m d,
    c = mkInformerCache (NewInformersMap config s m d) ∧
    (∀ s0, Scheme opts = Some s0 → s = Some s0) ∧
    (∀ m0, Mapper opts = Some m0 → m = Some m0) ∧
    (Mapper opts = None → discover config = (m, None)) ∧
    (∀ r, Resync opts = Some r → durations w !! r = Some d).
Proof.
  intros HN. rewrite New_unfold in HN.
  destruct (Default scheme_Scheme discover config opts w)
    as [[[opts' [e|]] w1]|] eqn:HD; [by simplify_eq| |done].
  destruct (Default_success_shape _ _ _ _ _ HD) as (Hs & Hm & Hr).
  destruct (deref_Duration (Resync opts') w1) as [[d w2]|] eqn:Hderef; simplify_eq.
  exists (Scheme opts'), (Mapper opts'), d. split; [done|].
  split; [intros s0 Hs0; rewrite Hs; by apply defaulted_Scheme_set|].
  split; [intros m0 Hm0; destruct Hm as [(m & ? & ?)|[? _]]; congruence|].
  split; [intros Hm0; destruct Hm as [(m & ? & ?)|[_ ?]]; [congruence|done]|].
  intros r Hr0. destruct Hr as [(r' & Hr1 & Hr' & Hw)|(Hr1 & _)]; [|congruence].
  assert (r' = r) as -> by congruence. subst w1.
  unfold deref_Duration in Hderef. rewrite Hr' in Hderef.
  destruct (durations w !! r) as [d'|]; simpl in Hderef; by simplify_eq.
Qed.

(** X3: [Default] is idempotent.  Options it has returned with a nil error
    and a mapper are a fixed point: defaulting them again, in the world the
    first call left, for any configuration and any discovery function,
    returns them unchanged with a nil error, allocates nothing and logs
    nothing. *)
Theorem Default_idempotent config opts w opts' w' :
  Default scheme_Scheme discover config opts w = Some ((opts', None), w') →
  is_Some (Mapper opts') →
  ∀ (config' : rest_Config) (discover' : rest_Config → option RESTMapper * option error),
    Default scheme_Scheme discover' config' opts' w' = Some ((opts', None), w').
Proof.
  intros HD [m Hm] config' discover'.
  destruct (Default_success_shape _ _ _ _ _ HD) as (Hs & _ & Hr).
  assert (is_Some (Scheme opts')) as [s Hs']
    by (rewrite Hs; apply defaulted_Scheme_is_Some).
  assert (is_Some (Resync opts')) as [r Hr']
    by (destruct Hr as [(r & _ & -> & _)|(_ & -> & _)]; eauto).
  rewrite (Default_Mapper_set _ _ _ _ _ _ Hm), (defaulted_Scheme_set _ _ _ Hs'), Hr'.
  rewrite (Default_resync_set (mkOptions (Some s) (Some m) (Some r)) r w' eq_refl).
  clear Hs Hr HD. destruct opts'; simpl in *; by subst.
Qed.

(** X4: the default resync period is a fresh variable for every call.  The
    pointer a defaulting call returns was not allocated before the call, so
    it aliases nothing the caller holds; two calls in a row return
    different pointers, and after the second call both still hold ten
    hours. *)
Theorem Default_resync_pointer_fresh config1 config2 opts1 opts2 w opts1' w1 opts2' w2 :
  Resync opts1 = None →
  Resync opts2 = None →
  Default scheme_Scheme discover config1 opts1 w = Some ((opts1', None), w1) →
  Default scheme_Scheme discover config2 opts2 w1 = Some ((opts2', None), w2) →
  Resync opts1' ≠ Resync opts2' ∧
  (∀ r, Resync opts1' = Some r → durations w !! r = None) ∧
  deref_Duration (Resync opts1') w2 = Some (10 * time.Hour, w2) ∧
  deref_Duration (Resync opts2') w2 = Some (10 * time.Hour, w2).
Proof.
  intros Hr1 Hr2 HD1 HD2.
  destruct (Default_success_shape _ _ _ _ _ HD1)
    as (_ & _ & [(r & ? & _)|(_ & Hp1 & ->)]); [congruence|].
  destruct (Default_success_shape _ _ _ _ _ HD2)
    as (_ & _ & [(r & ? & _)|(_ & Hp2 & ->)]); [congruence|].
  rewrite Hp1, Hp2. simpl. rewrite length_app. simpl.
  split; [intros ?; simplify_eq; lia|].
  split; [intros r ?; simplify_eq; by apply lookup_ge_None_2|].
  unfold deref_Duration. simpl. split.
  - rewrite lookup_app_l by (rewrite length_app; simpl; lia).
    rewrite lookup_app_r, Nat.sub_diag by lia. done.
  - rewrite lookup_app_r by (rewrite length_app; simpl; lia).
    rewrite length_app. simpl.
    replace (length (durations w) + 1 - (length (durations w) + 1))%nat with 0%nat by lia.
    done.
Qed.

(** X5: the footprint of a successful call.  When [Default] returns a nil
    error it has logged nothing, and the store of durations is the old one,
    extended by a single ten-hour variable exactly when [Resync] was unset;
    [New] then returns in that same world, having no effect of its own. *)
Theorem Default_success_footprint config opts w opts' w' :
  Default scheme_Scheme discover config opts w = Some ((opts', None), w') →
  logged w' = logged w ∧
  durations w' =
    durations w ++ match Resync opts with
                   | None => [10 * time.Hour]
                   | Some _ => []
                   end ∧
  ∀ res w'',
    New scheme_Scheme discover NewInformersMap config opts w = Some (res, w'') →
    w'' = w'.
Proof.
  intros HD.
  destruct (Default_success_shape _ _ _ _ _ HD)
    as (_ & _ & [(r & Hr & Hr' & ->)|(Hr & Hr' & ->)]); rewrite Hr; simpl.
  - split; [done|]. split; [by rewrite app_nil_r|].
    intros res w'' HN. rewrite New_unfold, HD in HN.
    unfold deref_Duration in HN. rewrite Hr' in HN.
    destruct (durations w !! r); simpl in HN; by simplify_eq.
  - split; [done|]. split; [done|].
    intros res w'' HN. rewrite New_unfold, HD in HN.
    unfold deref_Duration in HN. rewrite Hr' in HN.
    cbn [durations] in HN.
    rewrite lookup_app_r, Nat.sub_diag in HN by lia.
    simpl in HN. by simplify_eq.
Qed.

End CacheFurther.

(** ** The further properties on the concrete cluster *)

Lemma New_returns_cache_or_error_witness :
  valid_ptr Fixture.w1 (Resync Fixture.full_Options) ∧
  ((∃ c w',
      New Fixture.scheme_Scheme Fixture.NewDiscoveryRESTMapper Fixture.NewInformersMap
          "https://192.0.2.7:6443" Fixture.full_Options Fixture.w1
        = Some ((Some c, None), w') ∧
      (is_Some (Mapper Fixture.full_Options) ∨
       ∃ m, Fixture.NewDiscoveryRESTMapper "https://192.0.2.7:6443" = (m, None)))
   ∨ (∃ e w',
      New Fixture.scheme_Scheme Fixture.NewDiscoveryRESTMapper Fixture.NewInformersMap
          "https://192.0.2.7:6443" Fixture.full_Options Fixture.w1
        = Some ((None, Some e), w') ∧
      Mapper Fixture.full_Options = None ∧
      ∃ m cause, Fixture.NewDiscoveryRESTMapper "https://192.0.2.7:6443" = (m, Some cause))).
Proof.
  assert (valid_ptr Fixture.w1 (Resync Fixture.full_Options)) as Hvalid.
  { intros l Hl. injection Hl as <-. eexists. reflexivity. }
  split; [exact Hvalid|].
  exact (New_returns_cache_or_error
           Fixture.scheme_Scheme Fixture.NewDiscoveryRESTMapper Fixture.NewInformersMap
           "https://192.0.2.7:6443" Fixture.full_Options Fixture.w1 Hvalid).
Defined.

Lemma New_builds_registry_from_options_witness :
  let c := mkInformerCache
             ("https://10.0.0.1:6443", Some 5%nat, Some ["pods"; "deployments"],
              30 * time.Second) in
  New Fixture.scheme_Scheme Fixture.NewDiscoveryRESTMapper Fixture.NewInformersMap
      "https://10.0.0.1:6443" (mkOptions (Some 5%nat) None (Some 0%nat)) Fixture.w1
    = Some ((Some c, None), Fixture.w1) ∧
  ∃ s m d,
    c = mkInformerCache (Fixture.NewInformersMap "https://10.0.0.1:6443" s m d) ∧
    (∀ s0, Some 5%nat = Some s0 → s = Some s0) ∧
    (∀ m0, @None Fixture.RESTMapper = Some m0 → m = Some m0) ∧
    (@None Fixture.RESTMapper = None →
     Fixture.NewDiscoveryRESTMapper "https://10.0.0.1:6443" = (m, None)) ∧
    (∀ r, Some 0%nat = Some r → durations Fixture.w1 !! r = Some d).
Proof.
  split; [reflexivity|].
  apply (New_builds_registry_from_options
           Fixture.scheme_Scheme Fixture.NewDiscoveryRESTMapper Fixture.NewInformersMap
           "https://10.0.0.1:6443" (mkOptions (Some 5%nat) None (Some 0%nat)) Fixture.w1
           _ None Fixture.w1).
  reflexivity.
Defined.

Lemma Default_idempotent_witness :
  let opts' := mkOptions (Some 0%nat) (Some ["pods"; "deployments"]) (Some 0%nat) in
  let w' := mkWorld [36000000000000] [] in
  Default Fixture.scheme_Scheme Fixture.NewDiscoveryRESTMapper
          "https://10.0.0.1:6443" Fixture.empty_Options Fixture.w0
    = Some ((opts', None), w') ∧
  Default Fixture.scheme_Scheme Fixture.NewDiscoveryRESTMapper
          "https://192.0.2.7:6443" opts' w'
    = Some ((opts', None), w').
Proof.
  split; [reflexivity|].
  apply (Default_idempotent
           Fixture.scheme_Scheme Fixture.NewDiscoveryRESTMapper
           "https://10.0.0.1:6443" Fixture.empty_Options Fixture.w0).
  - reflexivity.
  - eexists. reflexivity.
Defined.

Lemma Default_resync_pointer_fresh_witness :
  let first := mkOptions (Some 0%nat) (Some ["pods"; "deployments"]) (Some 1%nat) in
  let second := mkOptions (Some 0%nat) (Some ["nodes"]) (Some 2%nat) in
  let w2 := mkWorld [30 * time.Second; 10 * time.Hour; 10 * time.Hour] [] in
  Resync first ≠ Resync second ∧
  (∀ r, Resync first = Some r → durations Fixture.w1 !! r = None) ∧
  deref_Duration (Resync first) w2 = Some (10 * time.Hour, w2) ∧
  deref_Duration (Resync second) w2 = Some (10 * time.Hour, w2).
Proof.
  apply (Default_resync_pointer_fresh
           Fixture.scheme_Scheme Fixture.NewDiscoveryRESTMapper
           "https://10.0.0.1:6443" "https://192.0.2.7:6443"
           Fixture.empty_Options (mkOptions None (Some ["nodes"]) None)
           Fixture.w1 _ (mkWorld [30 * time.Second; 10 * time.Hour] []));
    reflexivity.
Defined.

Lemma Default_success_footprint_witness :
  let opts' := mkOptions (Some 0%nat) (Some ["pods"; "deployments"]) (Some 1%nat) in
  let w' := mkWorld [30 * time.Second; 10 * time.Hour] [] in
  Default Fixture.scheme_Scheme Fixture.NewDiscoveryRESTMapper
          "https://10.0.0.1:6443" Fixture.empty_Options Fixture.w1
    = Some ((opts', None), w') ∧
  logged w' = logged Fixture.w1 ∧
  durations w' = durations Fixture.w1 ++ [10 * time.Hour] ∧
  ∀ res w'',
    New Fixture.scheme_Scheme Fixture.NewDiscoveryRESTMapper Fixture.NewInformersMap
        "https://10.0.0.1:6443" Fixture.empty_Options Fixture.w1 = Some (res, w'') →
    w'' = w'.
Proof.
  split; [reflexivity|].
  apply (Default_success_footprint
           Fixture.scheme_Scheme Fixture.NewDiscoveryRESTMapper Fixture.NewInformersMap
           "https://10.0.0.1:6443" Fixture.empty_Options Fixture.w1
           (mkOptions (Some 0%nat) (Some ["pods"; "deployments"]) (Some 1%nat))).
  reflexivity.
Defined.

(** * Properties of the informer registry *)

Import Registry.
































(** *** Every caller can return *)













(** *** Errors go to the caller whose constructor call failed *)









(** * Properties of the wait for sync *)

Section SyncWaitProperties.
Import SyncWait.

Lemma WaitForAllSynced_snoc snapshot trace ev :
  WaitForAllSynced snapshot (trace ++ [ev])
    = step snapshot (WaitForAllSynced snapshot trace) ev.
Proof. unfold WaitForAllSynced. by rewrite foldl_app. Qed.

Lemma synced_before_stop_snoc e trace ev :
  synced_before_stop e trace → synced_before_stop e (trace ++ [ev]).
Proof.
  intros (pre & post & -> & Hpre). exists pre, (post ++ [ev]).
  by rewrite <- app_assoc.
Qed.

Lemma synced_before_stop_intro e trace :
  EntrySynced e ∈ trace → StopClosed ∉ trace → synced_before_stop e trace.
Proof.
  intros He Hstop. apply list_elem_of_split in He as (pre & post & ->).
  exists pre, post. split; [done|]. intros Hin. apply Hstop.
  apply elem_of_app. by left.
Qed.

(** Once the signal has fired, nothing that happens later makes an entry
    have synced before it. *)
Lemma synced_before_stop_later e trace later :
  StopClosed ∈ trace →
  synced_before_stop e (trace ++ later) →
  synced_before_stop e trace.
Proof.
  intros Hstop (pre & post & Heq & Hpre).
  apply app_eq_inv in Heq as [(k & -> & Hk)|(k & -> & Hk)].
  - destruct k as [|ev k]; simpl in Hk.
    + destruct Hpre. by rewrite app_nil_r in Hstop.
    + injection Hk as <- ->. by exists pre, k.
  - destruct Hpre. apply elem_of_app. by left.
Qed.

(** What the state of the call records of the trace so far. *)
Record wait_inv (snapshot : list nat) (trace : list event) (s : state) : Prop := {
  wi_synced : ∀ e, e ∈ has_synced s ↔ EntrySynced e ∈ trace;
  wi_stopped : stopped s = true ↔ StopClosed ∈ trace;
  wi_seen : ∀ e, verdicts s !! e = Some true → synced_before_stop e trace;
  wi_gave_up : ∀ e, verdicts s !! e = Some false → stopped s = true;
  wi_result : result s = Some true → ∀ e, e ∈ snapshot → verdicts s !! e = Some true
}.

Lemma forallb_seen (snapshot : list nat) (vs : gmap nat bool) :
  forallb (λ e, bool_decide (vs !! e = Some true)) snapshot = true →
  ∀ e, e ∈ snapshot → vs !! e = Some true.
Proof.
  intros Hall e He. apply list_elem_of_In in He.
  rewrite forallb_forall in Hall. specialize (Hall e He).
  by apply bool_decide_eq_true in Hall.
Qed.

Lemma elem_of_snoc_ne {A} (x y : A) (l : list A) :
  x ≠ y → x ∈ l ++ [y] ↔ x ∈ l.
Proof.
  intros Hne. rewrite elem_of_app, list_elem_of_singleton. tauto.
Qed.

(** An event that is neither a sync nor the signal leaves the record of
    the trace as it is. *)
Lemma wait_inv_silent snapshot trace ev s :
  (∀ e, ev ≠ EntrySynced e) →
  ev ≠ StopClosed →
  wait_inv snapshot trace s →
  wait_inv snapshot (trace ++ [ev]) s.
Proof.
  intros Hsync Hstop [Hsy Hst Hseen Hgave Hres]. constructor; try done.
  - intros e. rewrite Hsy. symmetry. apply elem_of_snoc_ne. intros ?. by eapply Hsync.
  - rewrite Hst. symmetry. by apply elem_of_snoc_ne.
  - intros e He. by apply synced_before_stop_snoc, Hseen.
Qed.

Lemma step_wait_inv snapshot trace s ev :
  wait_inv snapshot trace s →
  wait_inv snapshot (trace ++ [ev]) (step snapshot s ev).
Proof.
  intros I. destruct ev as [e0| |e0|]; simpl.
  - destruct I as [Hsy Hst Hseen Hgave Hres]. constructor; simpl; try done.
    + intros e. rewrite elem_of_union, elem_of_singleton, elem_of_app, Hsy.
      rewrite list_elem_of_singleton. split; intros [?|?]; simplify_eq; eauto.
    + rewrite Hst. symmetry. by apply elem_of_snoc_ne.
    + intros e He. by apply synced_before_stop_snoc, Hseen.
  - destruct I as [Hsy Hst Hseen Hgave Hres]. constructor; simpl; try done.
    + intros e. rewrite Hsy. symmetry. by apply elem_of_snoc_ne.
    + split; [intros _|done]. apply elem_of_app. right. by apply list_elem_of_singleton.
    + intros e He. by apply synced_before_stop_snoc, Hseen.
  - pose proof (wait_inv_silent snapshot trace (Observe e0) s
                  ltac:(done) ltac:(done) I) as I'.
    unfold observe. case_bool_decide as Hlook; [|done].
    destruct Hlook as (Hin & Hnone & Hrnone).
    destruct (stopped s) eqn:Hstopped; [|case_bool_decide as Hsynced; [|done]];
      destruct I' as [Hsy Hst Hseen Hgave Hres].
    + (* the signal has fired: the waiter gives up *)
      constructor; simpl; try done.
      * by rewrite <- Hst, Hstopped.
      * intros e. destruct (decide (e0 = e)) as [->|Hne];
          [by rewrite lookup_insert_eq|rewrite lookup_insert_ne by done; eauto].
      * intros Hr. congruence.
    + (* the entry is seen synced, no signal so far *)
      constructor; simpl; try done.
      * by rewrite <- Hst, Hstopped.
      * intros e. destruct (decide (e0 = e)) as [->|Hne];
          [|rewrite lookup_insert_ne by done; eauto].
        intros _. apply synced_before_stop_intro; [by apply Hsy|].
        rewrite <- Hst. congruence.
      * intros e. destruct (decide (e0 = e)) as [->|Hne];
          [by rewrite lookup_insert_eq|rewrite lookup_insert_ne by done].
        intros He. rewrite <- Hstopped. by eapply Hgave.
      * intros Hr. congruence.
  - pose proof (wait_inv_silent snapshot trace Join s
                  ltac:(done) ltac:(done) I) as I'.
    unfold join. destruct (result s) as [b|] eqn:Hr; [done|].
    destruct (stopped s) eqn:Hstopped.
    + destruct I' as [Hsy Hst Hseen Hgave Hres]. constructor; simpl; try done.
      by rewrite <- Hst, Hstopped.
    + destruct (forallb _ snapshot) eqn:Hdone; [|done].
      destruct I' as [Hsy Hst Hseen Hgave Hres]. constructor; simpl; try done.
      * by rewrite <- Hst, Hstopped.
      * intros e He. rewrite <- Hstopped. by eapply Hgave.
      * intros Hall. injection Hall as Hall. by apply forallb_seen.
Qed.

Lemma WaitForAllSynced_inv snapshot trace :
  wait_inv snapshot trace (WaitForAllSynced snapshot trace).
Proof.
  induction trace as [|ev trace IH] using rev_ind.
  - constructor; simpl; try done.
    + intros e. rewrite elem_of_empty, elem_of_nil. done.
    + rewrite elem_of_nil. split; [done|tauto].
  - rewrite WaitForAllSynced_snoc. by apply step_wait_inv.
Qed.

(** A waiter's look touches the verdicts only. *)
Lemma observe_frame snapshot e s :
  result (observe snapshot e s) = result s ∧
  stopped (observe snapshot e s) = stopped s ∧
  has_synced (observe snapshot e s) = has_synced s.
Proof. unfold observe. by repeat case_match. Qed.

(** Letting the waiters of the entries [es] look, when no signal has fired,
    every one of these entries has synced and the call has not returned. *)
Lemma looks_all_seen snapshot es s :
  stopped s = false →
  result s = None →
  (∀ e, e ∈ es → e ∈ snapshot ∧ e ∈ has_synced s) →
  (∀ e, verdicts s !! e = Some false → False) →
  let s' := foldl (step snapshot) s (Observe <$> es) in
  stopped s' = false ∧ result s' = None ∧
  (∀ e, verdicts s !! e = Some true → verdicts s' !! e = Some true) ∧
  (∀ e, e ∈ es → verdicts s' !! e = Some true).
Proof.
  revert s. induction es as [|e0 es IH]; intros s Hst Hr Hes Hno; simpl.
  - repeat split; try done. intros e He. by apply elem_of_nil in He.
  - destruct (Hes e0 ltac:(left)) as [Hin Hsynced].
    assert (stopped (observe snapshot e0 s) = false ∧
            result (observe snapshot e0 s) = None ∧
            has_synced (observe snapshot e0 s) = has_synced s ∧
            (∀ e, verdicts s !! e = Some true →
                  verdicts (observe snapshot e0 s) !! e = Some true) ∧
            verdicts (observe snapshot e0 s) !! e0 = Some true ∧
            (∀ e, verdicts (observe snapshot e0 s) !! e = Some false → False))
      as (Hst1 & Hr1 & Hsy1 & Hkeep1 & Hnew1 & Hno1).
    { unfold observe. case_bool_decide as Hlook.
      - rewrite Hst, bool_decide_true by done. simpl.
        destruct Hlook as (_ & Hnone & _).
        repeat split; try done.
        + intros e He. destruct (decide (e0 = e)) as [->|Hne];
            [congruence|by rewrite lookup_insert_ne].
        + by rewrite lookup_insert_eq.
        + intros e. destruct (decide (e0 = e)) as [->|Hne];
            [by rewrite lookup_insert_eq|rewrite lookup_insert_ne by done; eauto].
      - repeat split; try done.
        destruct (verdicts s !! e0) as [[|]|] eqn:Hv; [done|by destruct (Hno e0)|].
        destruct Hlook. done. }
    destruct (IH (observe snapshot e0 s) Hst1 Hr1) as (Hst' & Hr' & Hkeep' & Hall');
      [|done|].
    { intros e He. rewrite Hsy1. apply Hes. by right. }
    repeat split; try done.
    + intros e He. by apply Hkeep', Hkeep1.
    + intros e He. apply elem_of_cons in He as [->|He]; [by apply Hkeep'|by apply Hall'].
Qed.

(** As long as no signal has fired the call does not return false. *)
Lemma false_only_after_stop snapshot trace :
  StopClosed ∉ trace →
  result (WaitForAllSynced snapshot trace) ≠ Some false.
Proof.
  unfold WaitForAllSynced.
  induction trace as [|ev tr IH] using rev_ind; [done|].
  intros Hns. rewrite foldl_app. simpl.
  assert (StopClosed ∉ tr) as Hns'
    by (intros ?; apply Hns, elem_of_app; by left).
  specialize (IH Hns').
  pose proof (WaitForAllSynced_inv snapshot tr) as Itr.
  unfold WaitForAllSynced in Itr.
  set (st := foldl (step snapshot) init tr) in *.
  assert (stopped st = false) as Hstt.
  { destruct (stopped st) eqn:Hs; [|done]. by apply (wi_stopped _ _ _ Itr) in Hs. }
  destruct ev as [e0| |e0|]; simpl; try done.
  - by rewrite (proj1 (observe_frame snapshot e0 st)).
  - unfold join. destruct (result st) as [b|] eqn:Hrt; [congruence|].
    rewrite Hstt. destruct (forallb _ snapshot) eqn:Hdone; simpl; [|congruence].
    intros Hfalse. injection Hfalse as Hfalse.
    apply Bool.not_true_iff_false in Hfalse. apply Hfalse.
    apply forallb_forall. intros e He. apply bool_decide_eq_true.
    rewrite forallb_forall in Hdone. specialize (Hdone e He).
    apply bool_decide_eq_true in Hdone as [[|] Hv]; [done|].
    apply (wi_gave_up _ _ _ Itr) in Hv. congruence.
Qed.

(** C7, as the wait has it.  [WaitForAllSynced] returns true only if every
    entry of the snapshot reported synced before the cancellation signal
    fired; it does return true when every entry has synced, no signal has
    fired, and the waiters look and the caller joins before any signal;
    once the signal has fired the call returns at its next join; and if the
    signal fires before some entry has synced, the call never returns
    true, whatever syncs afterwards. *)
Theorem WaitForAllSynced_true_only_if_seen_before_stop snapshot trace :
  (result (WaitForAllSynced snapshot trace) = Some true →
   ∀ e, e ∈ snapshot → synced_before_stop e trace) ∧
  (StopClosed ∉ trace →
   (∀ e, e ∈ snapshot → EntrySynced e ∈ trace) →
   result (WaitForAllSynced snapshot (trace ++ (Observe <$> snapshot) ++ [Join]))
     = Some true) ∧
  (StopClosed ∈ trace →
   is_Some (result (WaitForAllSynced snapshot (trace ++ [Join]))) ∧
   ((∃ e, e ∈ snapshot ∧ ¬ synced_before_stop e trace) →
    ∀ later b,
      result (WaitForAllSynced snapshot (trace ++ later)) = Some b → b = false)).
Proof.
  pose proof (WaitForAllSynced_inv snapshot trace) as I.
  assert (∀ tr, result (WaitForAllSynced snapshot tr) = Some true →
                ∀ e, e ∈ snapshot → synced_before_stop e tr) as Htrue.
  { intros tr Hr e He. pose proof (WaitForAllSynced_inv snapshot tr) as Itr.
    apply (wi_seen _ _ _ Itr). by apply (wi_result _ _ _ Itr). }
  split; [by apply Htrue|split].
  - intros Hnostop Hall.
    assert (stopped (WaitForAllSynced snapshot trace) = false) as Hst.
    { destruct (stopped _) eqn:Hs; [|done]. by apply (wi_stopped _ _ _ I) in Hs. }
    assert (∀ e, verdicts (WaitForAllSynced snapshot trace) !! e = Some false → False)
      as Hno.
    { intros e He. apply (wi_gave_up _ _ _ I) in He. congruence. }
    unfold WaitForAllSynced in *. rewrite !foldl_app.
    set (s := foldl (step snapshot) init trace) in *.
    destruct (result s) as [[|]|] eqn:Hr.
    + assert (∀ es, result (foldl (step snapshot) s (Observe <$> es)) = Some true) as Hkeep.
      { intros es. induction es as [|e es IH] using rev_ind; [done|].
        rewrite fmap_app, foldl_app. simpl.
        by rewrite (proj1 (observe_frame snapshot e _)). }
      simpl. unfold join. by rewrite Hkeep.
    + exfalso. by apply (false_only_after_stop snapshot trace).
    + destruct (looks_all_seen snapshot snapshot s Hst Hr) as (Hst' & Hr' & _ & Hall').
      { intros e He. split; [done|]. apply (wi_synced _ _ _ I). by apply Hall. }
      { done. }
      simpl. unfold join. rewrite Hr', Hst'.
      assert (forallb (λ e, bool_decide
                (is_Some (verdicts (foldl (step snapshot) s (Observe <$> snapshot)) !! e)))
                snapshot = true) as ->.
      { apply forallb_forall. intros e He. apply bool_decide_eq_true.
        rewrite (Hall' e) by (by apply list_elem_of_In). eauto. }
      simpl. f_equal. apply forallb_forall. intros e He. apply bool_decide_eq_true.
      apply Hall'. by apply list_elem_of_In.
  - intros Hstop. split.
    + assert (stopped (WaitForAllSynced snapshot trace) = true) as Hst
        by (by apply (wi_stopped _ _ _ I)).
      rewrite WaitForAllSynced_snoc. simpl. unfold join.
      destruct (result (WaitForAllSynced snapshot trace)) as [b|] eqn:Hr.
      * rewrite Hr. eauto.
      * rewrite Hst. simpl. eauto.
    + intros (e & He & Hnot) later b Hr.
      destruct b; [|done]. destruct Hnot.
      apply (synced_before_stop_later e trace later Hstop). by apply Htrue.
Qed.

(** C7, as stated, fails: the one registered entry reports synced before
    the cancellation signal fires, yet the waiter only gets to look after
    the signal, and the call returns false. *)
Lemma WaitForAllSynced_false_though_synced_first :
  synced_before_stop 0 late_look ∧
  result (WaitForAllSynced [0%nat] late_look) = Some false.
Proof.
  split; [|vm_compute; reflexivity].
  exists [], [StopClosed; Observe 0%nat; Join]. split; [reflexivity|].
  apply not_elem_of_nil.
Qed.

Lemma WaitForAllSynced_true_only_if_seen_before_stop_witness :
  result (WaitForAllSynced [0; 1]%nat all_seen) = Some true ∧
  ∀ e, e ∈ [0; 1]%nat → synced_before_stop e all_seen.
Proof.
  assert (result (WaitForAllSynced [0; 1]%nat all_seen) = Some true) as Hr
    by (vm_compute; reflexivity).
  split; [exact Hr|].
  exact (proj1 (WaitForAllSynced_true_only_if_seen_before_stop [0; 1]%nat all_seen) Hr).
Defined.

End SyncWaitProperties.
